(** * gsoda: the G-code motion interpreter, the priming-line trimmer and
    the bounds computation of [src/main.rs], shallowly embedded.

    The Rust code computes on [f32].  The embedding is generic in the
    number type: the class [F32] collects exactly the operations and
    comparisons the code uses ([+], [-], [abs], [<], [==], literals), so
    every theorem that needs no law of these operations holds for IEEE
    [f32] itself; the laws a theorem does need are stated as hypotheses.
    [Z] is the concrete instance used to run the code on examples (the
    values in these examples are small integers, on which [f32] is exact). *)

From Stdlib Require Import QArith Qminmax Lqa.
From Stdlib Require Import String Ascii ZArith List Bool Lia.
Import ListNotations.

Close Scope Q_scope.
Open Scope char_scope.

(** ** Number interface *)

Class F32 (R : Type) := {
  f_add : R -> R -> R;          (* a + b *)
  f_sub : R -> R -> R;          (* a - b *)
  f_abs : R -> R;               (* a.abs() *)
  f_lt : R -> R -> bool;        (* a < b *)
  f_le : R -> R -> bool;        (* a <= b *)
  f_eq : R -> R -> bool;        (* a == b; [a != b] is [negb (f_eq a b)] *)
  f_of_Z : Z -> R               (* numeric literals *)
}.

(** [f32::INFINITY], [f32::NEG_INFINITY], [f32::min], [f32::max]. *)
Class F32Extrema (R : Type) := {
  f_inf : R;
  f_neg_inf : R;
  f_min : R -> R -> R;
  f_max : R -> R -> R
}.

#[global] Instance F32_Z : F32 Z := {
  f_add := Z.add; f_sub := Z.sub; f_abs := Z.abs;
  f_lt := Z.ltb; f_le := Z.leb; f_eq := Z.eqb; f_of_Z := fun n => n
}.

Section Gsoda.
Context {R : Type} `{F32 R}.

(** ** Data model *)

Record Vec3D := mkVec3D { x : R; y : R; z : R }.

(** [Vec3D::zero()] *)
Definition vzero : Vec3D := mkVec3D (f_of_Z 0) (f_of_Z 0) (f_of_Z 0).

(** [end] is a keyword of Rocq: the field [end] is [end_]. *)
Record LineSegment := mkSeg {
  start : Vec3D;
  end_ : Vec3D;
  is_extrusion : bool;
  layer_z : R
}.

(** The part of the [gcode] crate the interpreter reads. *)
Inductive Mnemonic := General | Miscellaneous | ProgramNumber | ToolChange.

Record Word := mkWord { letter : ascii; value : R }.

Record GCode := mkGCode {
  mnemonic : Mnemonic;
  major_number : Z;
  arguments : list Word
}.

(** The local variables of [parse_gcode] threaded through its loops. *)
Record State := mkState {
  segments : list LineSegment;
  current_pos : Vec3D;
  e_pos : R;
  absolute_mode : bool
}.

Definition init_state : State := mkState [] vzero (f_of_Z 0) true.

(** ** Motion interpreter *)

(** One iteration of [for arg in gcode.arguments()], on [(new_pos, new_e)]. *)
Definition apply_arg (acc : Vec3D * R) (arg : Word) : Vec3D * R :=
  let '(p, e) := acc in
  let c := letter arg in
  if Ascii.eqb c "X" then (mkVec3D (value arg) (y p) (z p), e)
  else if Ascii.eqb c "Y" then (mkVec3D (x p) (value arg) (z p), e)
  else if Ascii.eqb c "Z" then (mkVec3D (x p) (y p) (value arg), e)
  else if Ascii.eqb c "E" then (p, value arg)
  else (p, e).

(** The [G0]/[G1] branch. *)
Definition resolve_move (st : State) (args : list Word) : Vec3D * R :=
  let current_pos := current_pos st in
  let e_pos := e_pos st in
  let '(new_pos, new_e) := fold_left apply_arg args (current_pos, e_pos) in
  if negb (absolute_mode st) then
    (mkVec3D (f_add (x new_pos) (x current_pos))
             (f_add (y new_pos) (y current_pos))
             (f_add (z new_pos) (z current_pos)),
     f_add new_e e_pos)
  else (new_pos, new_e).

Definition moved (new_pos current_pos : Vec3D) : bool :=
  negb (f_eq (x new_pos) (x current_pos)) ||
  negb (f_eq (y new_pos) (y current_pos)) ||
  negb (f_eq (z new_pos) (z current_pos)).

Definition step_move (st : State) (args : list Word) : State :=
  let '(new_pos, new_e) := resolve_move st args in
  let is_extrusion := f_lt (e_pos st) new_e in
  let segs :=
    if moved new_pos (current_pos st)
    then segments st ++ [mkSeg (current_pos st) new_pos is_extrusion (z new_pos)]
    else segments st in
  mkState segs new_pos new_e (absolute_mode st).

(** One iteration of [for gcode in parsed_line.gcodes()]. *)
Definition step_gcode (st : State) (g : GCode) : State :=
  match mnemonic g with
  | General =>
      let major := major_number g in
      if (major =? 0)%Z || (major =? 1)%Z then step_move st (arguments g)
      else if (major =? 90)%Z then
        mkState (segments st) (current_pos st) (e_pos st) true
      else if (major =? 91)%Z then
        mkState (segments st) (current_pos st) (e_pos st) false
      else st
  | _ => st
  end.

Definition run_gcodes (st : State) (gs : list GCode) : State :=
  fold_left step_gcode gs st.

(** ** Text layer *)

Definition is_ws (c : ascii) : bool :=
  match c with
  | " " | "009" | "010" | "011" | "012" | "013" => true
  | _ => false
  end.

Fixpoint drop_ws (cs : list ascii) : list ascii :=
  match cs with
  | c :: cs' => if is_ws c then drop_ws cs' else cs
  | [] => []
  end.

(** [str::trim] on ASCII text. *)
Definition trim (cs : list ascii) : list ascii := rev (drop_ws (rev (drop_ws cs))).

Definition strip_cr (cs : list ascii) : list ascii :=
  match rev cs with
  | "013" :: r => rev r
  | _ => cs
  end.

(** [str::lines]: split at ["\n"], drop one trailing ["\r"] per line, and no
    empty last line after a final ["\n"]. *)
Fixpoint lines_aux (cs cur : list ascii) : list (list ascii) :=
  match cs with
  | [] => match cur with [] => [] | _ => [strip_cr (rev cur)] end
  | c :: cs' =>
      if Ascii.eqb c "010" then strip_cr (rev cur) :: lines_aux cs' []
      else lines_aux cs' (c :: cur)
  end.

Definition lines (s : string) : list (list ascii) := lines_aux (list_ascii_of_string s) [].

Definition digit_value (c : ascii) : option Z :=
  let n := (Z.of_nat (nat_of_ascii c) - 48)%Z in
  if (0 <=? n)%Z && (n <=? 9)%Z then Some n else None.

Fixpoint digits_value (cs : list ascii) (acc : Z) : option Z :=
  match cs with
  | [] => Some acc
  | c :: cs' =>
      match digit_value c with
      | Some d => digits_value cs' (acc * 10 + d)%Z
      | None => None
      end
  end.

Definition parse_number (cs : list ascii) : option Z :=
  match cs with
  | [] => None
  | "-" :: [] | "+" :: [] => None
  | "-" :: ds => option_map Z.opp (digits_value ds 0)
  | "+" :: ds => digits_value ds 0
  | _ => digits_value cs 0
  end.

Definition is_letter (c : ascii) : bool :=
  let n := nat_of_ascii c in (Nat.leb 65 n && Nat.leb n 90)%bool.

Fixpoint split_words_aux (cs cur : list ascii) : list (list ascii) :=
  match cs with
  | [] => match cur with [] => [] | _ => [rev cur] end
  | c :: cs' =>
      if is_ws c then
        match cur with
        | [] => split_words_aux cs' []
        | _ => rev cur :: split_words_aux cs' []
        end
      else split_words_aux cs' (c :: cur)
  end.

Definition parse_word (w : list ascii) : option (ascii * Z) :=
  match w with
  | c :: num =>
      if is_letter c then option_map (fun v => (c, v)) (parse_number num) else None
  | [] => None
  end.

Definition mnemonic_of (c : ascii) : option Mnemonic :=
  match c with
  | "G" => Some General
  | "M" => Some Miscellaneous
  | "O" => Some ProgramNumber
  | "T" => Some ToolChange
  | _ => None
  end.

(** Commands of one line, built back to front: a command word opens a new
    command, any other word becomes an argument of the last one. *)
Fixpoint group_words (acc : list GCode) (ws : list (ascii * Z)) : list GCode :=
  match ws with
  | [] => rev acc
  | (c, v) :: ws' =>
      match mnemonic_of c with
      | Some m => group_words (mkGCode m v [] :: acc) ws'
      | None =>
          match acc with
          | g :: acc' =>
              group_words
                (mkGCode (mnemonic g) (major_number g)
                   (arguments g ++ [mkWord c (f_of_Z v)]) :: acc') ws'
          | [] => group_words acc ws'
          end
      end
  end.

(** Model of [gcode::parse] of the external [gcode] crate (not part of this
    repository) restricted to the syntax used by the examples here:
    whitespace separated words, each an upper-case letter followed by a
    signed integer; [G], [M], [O] and [T] words are commands, the other
    words are arguments of the preceding command; a word that does not
    parse contributes nothing. *)
Definition gcode_parse (line : list ascii) : list GCode :=
  group_words [] (flat_map (fun w => match parse_word w with Some p => [p] | None => [] end)
                          (split_words_aux line [])).

(** One iteration of [for line in content.lines()]. *)
Definition run_line (st : State) (line : list ascii) : State :=
  let trimmed := trim line in
  match trimmed with
  | [] => st
  | ";" :: _ => st
  | _ => run_gcodes st (gcode_parse trimmed)
  end.

(** [parse_gcode] after [fs::read_to_string] succeeded with [content]. *)
Definition parse_gcode (content : string) : list LineSegment :=
  segments (fold_left run_line (lines content) init_state).

(** ** Priming-line trimmer *)

(** [slice.windows(n)] for [n > 0]. *)
Fixpoint windows {A} (n : nat) (l : list A) : list (list A) :=
  match l with
  | [] => []
  | _ :: l' => if Nat.leb n (length l) then firstn n l :: windows n l' else []
  end.

Definition extrusion_count (window : list LineSegment) : nat :=
  length (filter is_extrusion window).

(** The closure of [window.iter().all(..)]. *)
Definition away_from_edge (s : LineSegment) : bool :=
  let at_edge := f_lt (x (start s)) (f_of_Z 10) || f_lt (x (end_ s)) (f_of_Z 10) ||
                 f_lt (y (start s)) (f_of_Z 20) || f_lt (y (end_ s)) (f_of_Z 20) in
  let long_move := f_lt (f_of_Z 100) (f_abs (f_sub (x (end_ s)) (x (start s)))) ||
                   f_lt (f_of_Z 100) (f_abs (f_sub (y (end_ s)) (y (start s)))) in
  negb at_edge && negb long_move.

(** [for (i, window) in segments.windows(5).enumerate()] with its [break]. *)
Fixpoint find_window (i : nat) (ws : list (list LineSegment)) : option nat :=
  match ws with
  | [] => None
  | window :: ws' =>
      if Nat.leb 3 (extrusion_count window) && forallb away_from_edge window
      then Some i
      else find_window (S i) ws'
  end.

Definition start_index (segs : list LineSegment) : option nat :=
  find_window 0 (windows 5 segs).

(** [iter().rposition(p)]: the index of the last element satisfying [p]. *)
Fixpoint rposition_aux {A} (p : A -> bool) (i : nat) (l : list A) (acc : option nat) : option nat :=
  match l with
  | [] => acc
  | a :: l' => rposition_aux p (S i) l' (if p a then Some i else acc)
  end.

Definition rposition {A} (p : A -> bool) (l : list A) : option nat := rposition_aux p 0 l None.

Definition end_index (segs : list LineSegment) : option nat :=
  option_map S (rposition is_extrusion segs).

Definition unwrap_or {A} (o : option A) (d : A) : A :=
  match o with Some a => a | None => d end.

(** [(start, end)] as computed by [filter_priming_lines]. *)
Definition trim_bounds (segs : list LineSegment) : nat * nat :=
  (unwrap_or (start_index segs) 0, unwrap_or (end_index segs) (length segs)).

(** [segments[start..end].to_vec()]; [None] is the panic of an out-of-range
    or reversed slice. *)
Definition slice {A} (l : list A) (start stop : nat) : option (list A) :=
  if Nat.leb start stop && Nat.leb stop (length l)
  then Some (firstn (stop - start) (skipn start l))
  else None.

Definition filter_priming_lines (segs : list LineSegment) : option (list LineSegment) :=
  match segs with
  | [] => Some []
  | _ => let '(start, stop) := trim_bounds segs in slice segs start stop
  end.

(** ** Start and end boundaries as the spec words them *)

(** The smallest [i < n] with [p i]. *)
Fixpoint first_index (p : nat -> bool) (n : nat) : option nat :=
  match n with
  | 0 => None
  | S m => match first_index p m with Some i => Some i | None => if p m then Some m else None end
  end.

(** The largest [i < n] with [p i]. *)
Fixpoint last_index (p : nat -> bool) (n : nat) : option nat :=
  match n with
  | 0 => None
  | S m => if p m then Some m else last_index p m
  end.

Definition segment_ok_spec (s : LineSegment) : bool :=
  f_le (f_of_Z 10) (x (start s)) && f_le (f_of_Z 10) (x (end_ s)) &&
  f_le (f_of_Z 20) (y (start s)) && f_le (f_of_Z 20) (y (end_ s)) &&
  f_le (f_abs (f_sub (x (end_ s)) (x (start s)))) (f_of_Z 100) &&
  f_le (f_abs (f_sub (y (end_ s)) (y (start s)))) (f_of_Z 100).

Definition window_at (segs : list LineSegment) (i : nat) : list LineSegment :=
  firstn 5 (skipn i segs).

Definition window_ok_spec (w : list LineSegment) : bool :=
  Nat.leb 3 (length (filter is_extrusion w)) && forallb segment_ok_spec w.

Definition depositing_at (segs : list LineSegment) (i : nat) : bool :=
  match nth_error segs i with Some s => is_extrusion s | None => false end.

Definition start_spec (segs : list LineSegment) : nat :=
  unwrap_or (first_index (fun i => window_ok_spec (window_at segs i)) (length segs - 4)) 0.

Definition last_depositing (segs : list LineSegment) : option nat :=
  last_index (depositing_at segs) (length segs).

Definition end_spec (segs : list LineSegment) : nat :=
  match last_depositing segs with Some i => S i | None => length segs end.

End Gsoda.

Arguments Vec3D R : clear implicits.
Arguments LineSegment R : clear implicits.
Arguments Word R : clear implicits.
Arguments GCode R : clear implicits.
Arguments State R : clear implicits.

(** ** Bounds *)

Section Bounds.
Context {R : Type} `{F32 R} `{F32Extrema R}.

(** [min] and [max] of the Rust struct. *)
Record Bounds := mkBounds { bmin : Vec3D R; bmax : Vec3D R }.

(** [Bounds::new()] *)
Definition bounds_new : Bounds :=
  mkBounds (mkVec3D f_inf f_inf f_inf) (mkVec3D f_neg_inf f_neg_inf f_neg_inf).

(** [Bounds::expand] *)
Definition expand (b : Bounds) (p : Vec3D R) : Bounds :=
  mkBounds
    (mkVec3D (f_min (x (bmin b)) (x p)) (f_min (y (bmin b)) (y p)) (f_min (z (bmin b)) (z p)))
    (mkVec3D (f_max (x (bmax b)) (x p)) (f_max (y (bmax b)) (y p)) (f_max (z (bmax b)) (z p))).

Definition compute_bounds (segs : list (LineSegment R)) : Bounds :=
  fold_left (fun b seg => if is_extrusion seg then expand (expand b (start seg)) (end_ seg) else b)
    segs bounds_new.

End Bounds.

(** Integers with the two infinities, and [min]/[max]: an instance of
    [F32Extrema] on which [compute_bounds] runs. *)
Inductive ZExt := NegInf | Fin (n : Z) | PosInf.

Definition zext_le (a b : ZExt) : bool :=
  match a, b with
  | NegInf, _ | _, PosInf => true
  | Fin m, Fin n => Z.leb m n
  | _, _ => false
  end.

Definition zext_min (a b : ZExt) : ZExt := if zext_le a b then a else b.
Definition zext_max (a b : ZExt) : ZExt := if zext_le a b then b else a.

#[global] Instance F32Extrema_ZExt : F32Extrema ZExt := {
  f_inf := PosInf; f_neg_inf := NegInf; f_min := zext_min; f_max := zext_max
}.

(** ** [main] up to the bounds *)

Section Main.
Context {R : Type} `{F32 R} `{F32Extrema R}.

(** The steps of [main] from the parse to [compute_bounds]: [None] is a
    panic, [inl] the error of [anyhow::bail!], [inr] the trimmed segments with
    their bounds. *)
Definition main_pipeline (content : string)
  : option (string + (list (LineSegment R) * Bounds)) :=
  let segments := parse_gcode content in
  match filter_priming_lines segments with
  | None => None
  | Some segments =>
      match segments with
      | [] => Some (inl "No valid G-code movements found in file"%string)
      | _ => Some (inr (segments, compute_bounds segments))
      end
  end.

End Main.

(** The point [p] lies in the box [b] for the order [le]. *)
Definition within {R : Type} `{F32Extrema R} (le : R -> R -> bool) (b : Bounds) (p : Vec3D R)
  : Prop :=
  le (x (bmin b)) (x p) = true /\ le (y (bmin b)) (y p) = true /\ le (z (bmin b)) (z p) = true /\
  le (x p) (x (bmax b)) = true /\ le (y p) (y (bmax b)) = true /\ le (z p) (z (bmax b)) = true.

(** ** The viewer loop of [main]

    The camera, the layer filter and the display toggles, updated once per
    frame from the keys, the mouse and the wheel. [f32] values are modelled
    as rationals; the initial angles of [Camera::new] are parameters. *)

Open Scope Q_scope.

Record Camera := mkCamera { distance : Q; yaw : Q; pitch : Q }.

Definition camera_new (distance yaw0 pitch0 : Q) : Camera := mkCamera distance yaw0 pitch0.

Definition camera_reset (c : Camera) (distance yaw0 pitch0 : Q) : Camera :=
  mkCamera distance yaw0 pitch0.

(** [f32::clamp]: raise to [lo], then lower to [hi]. *)
Definition clamp (v lo hi : Q) : Q :=
  let v := if negb (Qle_bool lo v) then lo else v in
  if negb (Qle_bool v hi) then hi else v.

Record Viewer := mkViewer {
  camera : Camera;
  layer_filter_enabled : bool;
  layer_filter_z : Q;
  show_travel_moves : bool;
  show_axis : bool;
  last_mouse_pos : option (Q * Q)
}.

(** What one frame reads: the keys pressed, the left button and the mouse
    position, the wheel. *)
Record FrameInput := mkFrameInput {
  pressed_escape : bool;
  pressed_r : bool;
  pressed_l : bool;
  pressed_m : bool;
  pressed_s : bool;
  pressed_up : bool;
  pressed_down : bool;
  mouse_left_down : bool;
  mouse_position : Q * Q;
  wheel_y : Q
}.

Definition initial_distance : Q := 3.

Section Viewer.
Variables (max_z yaw0 pitch0 : Q).

Definition viewer_init : Viewer :=
  mkViewer (camera_new initial_distance yaw0 pitch0) false max_z true true None.

(** One pass of the loop up to the drawing; [None] is the [break] on Escape. *)
Definition frame (v : Viewer) (i : FrameInput) : option Viewer :=
  if pressed_escape i then None else
  let cam := if pressed_r i then camera_reset (camera v) initial_distance yaw0 pitch0
             else camera v in
  let enabled := if pressed_l i then negb (layer_filter_enabled v)
                 else layer_filter_enabled v in
  let travel := if pressed_m i then negb (show_travel_moves v) else show_travel_moves v in
  let axis := if pressed_s i then negb (show_axis v) else show_axis v in
  let lz := layer_filter_z v in
  let lz := if enabled then
              let lz := if pressed_up i then Qmin (lz + (1#2)) max_z else lz in
              if pressed_down i then Qmax (lz - (1#2)) 0 else lz
            else lz in
  let '(cam, last) :=
    if mouse_left_down i then
      let '(mx, my) := mouse_position i in
      let cam := match last_mouse_pos v with
                 | Some (last_x, last_y) =>
                     let dx := mx - last_x in
                     let dy := my - last_y in
                     mkCamera (distance cam) (yaw cam + dx * (1#100))
                              (clamp (pitch cam - dy * (1#100)) (-(3#2)) (3#2))
                 | None => cam
                 end in
      (cam, Some (mx, my))
    else (cam, None) in
  let cam := if negb (Qeq_bool (wheel_y i) 0)
             then mkCamera (Qmax (distance cam - wheel_y i * (1#10)) (1#2)) (yaw cam) (pitch cam)
             else cam in
  Some (mkViewer cam enabled lz travel axis last).

(** The loop over a sequence of frames, up to the first Escape. *)
Fixpoint run_frames (v : Viewer) (inputs : list FrameInput) : Viewer :=
  match inputs with
  | [] => v
  | i :: rest =>
      match frame v i with
      | None => v
      | Some v' => run_frames v' rest
      end
  end.

End Viewer.

Close Scope Q_scope.


(** ** Spec-side helpers for the interpreter *)

Section Facts.
Context {R : Type} `{F32 R}.

(** The value of the last argument with letter [c], if any. *)
Fixpoint last_arg (c : ascii) (args : list (Word R)) : option R :=
  match args with
  | [] => None
  | a :: args' =>
      match last_arg c args' with
      | Some v => Some v
      | None => if Ascii.eqb (letter a) c then Some (value a) else None
      end
  end.

Definition pt_eq (a b : Vec3D R) : bool :=
  f_eq (x a) (x b) && f_eq (y a) (y b) && f_eq (z a) (z b).

(** Two points are the same value, or compare equal coordinate by coordinate. *)
Definition same_point (a b : Vec3D R) : Prop := a = b \/ pt_eq a b = true.

(** Each segment starts where the previous one ended, the first one where
    [prev] is. *)
Fixpoint chained (prev : Vec3D R) (segs : list (LineSegment R)) : Prop :=
  match segs with
  | [] => True
  | s :: segs' => same_point prev (start s) /\ chained (end_ s) segs'
  end.

(** The end of the last segment, [d] when there is none. *)
Fixpoint last_end (d : Vec3D R) (segs : list (LineSegment R)) : Vec3D R :=
  match segs with
  | [] => d
  | s :: segs' => last_end (end_ s) segs'
  end.

(** ** Lemmas *)

Lemma fold_apply_arg (args : list (Word R)) (p : Vec3D R) (e : R) :
  fold_left apply_arg args (p, e) =
  (mkVec3D (unwrap_or (last_arg "X" args) (x p))
           (unwrap_or (last_arg "Y" args) (y p))
           (unwrap_or (last_arg "Z" args) (z p)),
   unwrap_or (last_arg "E" args) e).
Proof.
  revert p e; induction args as [|a args IH]; intros p e.
  - destruct p; reflexivity.
  - cbn [fold_left last_arg].
    destruct (apply_arg (p, e) a) as [p' e'] eqn:Ha.
    rewrite IH. unfold apply_arg in Ha.
    destruct (Ascii.eqb (letter a) "X") eqn:EX;
    [|destruct (Ascii.eqb (letter a) "Y") eqn:EY;
      [|destruct (Ascii.eqb (letter a) "Z") eqn:EZ;
        [|destruct (Ascii.eqb (letter a) "E") eqn:EE]]];
    injection Ha as <- <-;
    repeat match goal with
    | H : Ascii.eqb _ _ = true |- _ => apply Ascii.eqb_eq in H; rewrite H
    end;
    repeat match goal with
    | H : Ascii.eqb _ _ = false |- _ => rewrite H
    end;
    simpl;
    destruct (last_arg "X" args), (last_arg "Y" args), (last_arg "Z" args),
      (last_arg "E" args); reflexivity.
Qed.

Lemma resolve_move_eq (st : State R) (args : list (Word R)) :
  resolve_move st args =
  let cur := current_pos st in
  let p := mkVec3D (unwrap_or (last_arg "X" args) (x cur))
                   (unwrap_or (last_arg "Y" args) (y cur))
                   (unwrap_or (last_arg "Z" args) (z cur)) in
  let e := unwrap_or (last_arg "E" args) (e_pos st) in
  if negb (absolute_mode st) then
    (mkVec3D (f_add (x p) (x cur)) (f_add (y p) (y cur)) (f_add (z p) (z cur)),
     f_add e (e_pos st))
  else (p, e).
Proof. unfold resolve_move. rewrite fold_apply_arg. reflexivity. Qed.

Lemma step_move_eq (st : State R) (args : list (Word R)) :
  step_move st args =
  let '(new_pos, new_e) := resolve_move st args in
  mkState
    (if moved new_pos (current_pos st)
     then segments st ++ [mkSeg (current_pos st) new_pos (f_lt (e_pos st) new_e) (z new_pos)]
     else segments st)
    new_pos new_e (absolute_mode st).
Proof. unfold step_move. destruct (resolve_move st args); reflexivity. Qed.

Lemma run_line_cases (st : State R) (l : list ascii) :
  run_line st l = st \/ exists gs, run_line st l = run_gcodes st gs.
Proof.
  unfold run_line. destruct (trim l) as [|c cs]; [left; reflexivity|].
  destruct c as [b0 b1 b2 b3 b4 b5 b6 b7].
  destruct b0, b1, b2, b3, b4, b5, b6, b7; eauto.
Qed.

(** An invariant of [step_gcode] holds after [parse_gcode]. *)
Lemma run_gcodes_inv (I : State R -> Prop) :
  (forall st g, I st -> I (step_gcode st g)) ->
  forall gs st, I st -> I (run_gcodes st gs).
Proof.
  intros Hstep gs. unfold run_gcodes.
  induction gs as [|g gs IH]; intros st Hst; simpl; auto.
Qed.

Lemma parse_gcode_inv (I : State R -> Prop) :
  I init_state ->
  (forall st g, I st -> I (step_gcode st g)) ->
  forall content, I (fold_left run_line (lines content) init_state).
Proof.
  intros Hinit Hstep content.
  generalize (lines content) as ls. intros ls.
  generalize (@init_state R _) as st0, Hinit. intros st0 Hst0.
  revert st0 Hst0; induction ls as [|l ls IH]; intros st0 Hst0; simpl; auto.
  apply IH. destruct (run_line_cases st0 l) as [-> | [gs ->]]; auto.
  apply run_gcodes_inv; auto.
Qed.

(** Facts about one motion command, shared by the claims about it. *)
Lemma step_gcode_move_or_keep (st : State R) (g : GCode R) :
  (exists args, step_gcode st g = step_move st args) \/
  (segments (step_gcode st g) = segments st /\ current_pos (step_gcode st g) = current_pos st).
Proof.
  unfold step_gcode.
  destruct (mnemonic g); [|right; auto..].
  destruct ((major_number g =? 0)%Z || (major_number g =? 1)%Z); [left; eauto|].
  destruct ((major_number g =? 90)%Z); [right; auto|].
  destruct ((major_number g =? 91)%Z); right; auto.
Qed.

Lemma chained_snoc (p : Vec3D R) (l : list (LineSegment R)) (s : LineSegment R) :
  chained p (l ++ [s]) <-> chained p l /\ same_point (last_end p l) (start s).
Proof.
  revert p; induction l as [|a l IH]; intros p; simpl.
  - tauto.
  - rewrite IH. tauto.
Qed.

Lemma last_end_snoc (p : Vec3D R) (l : list (LineSegment R)) (s : LineSegment R) :
  last_end p (l ++ [s]) = end_ s.
Proof. revert p; induction l as [|a l IH]; intros p; simpl; auto. Qed.

Lemma moved_false_pt_eq (a b : Vec3D R) : moved a b = false -> pt_eq a b = true.
Proof.
  unfold moved, pt_eq.
  destruct (f_eq (x a) (x b)), (f_eq (y a) (y b)), (f_eq (z a) (z b)); simpl; congruence.
Qed.

End Facts.

(** ** The motion interpreter *)

Definition scenario1_text : string := "G90
G1 X0 Y0 Z0
G1 X10 Y0 Z0 E1
".

Definition relative_text : string := "G91
G1 X10
G1 Y5
".

(** C1 (as stated): the scenario does not give two segments, the first one
    not depositing and the second one depositing. *)
Lemma C1_not_two_segments :
  ~ exists s1 s2, parse_gcode (R:=Z) scenario1_text = [s1; s2] /\
                  is_extrusion s1 = false /\ is_extrusion s2 = true.
Proof.
  intros (s1 & s2 & Hp & _). vm_compute in Hp. discriminate Hp.
Qed.

(** C1 (amended): on ["G90\nG1 X0 Y0 Z0\nG1 X10 Y0 Z0 E1\n"] the interpreter
    produces exactly one segment, from (0,0,0) to (10,0,0), depositing; the
    move to (0,0,0) starts at the origin and so emits no segment. *)
Theorem C1_scenario1_one_segment :
  parse_gcode (R:=Z) scenario1_text =
  [mkSeg (mkVec3D 0 0 0) (mkVec3D 10 0 0) true 0]%Z.
Proof. vm_compute. reflexivity. Qed.

(** C2: in relative mode an axis the command does not name is not carried
    forward: after [G91], [G1 X10] then [G1 Y5] ends at (20,5,0), not at
    (10,5,0): the unnamed X keeps the prior value 10 and then gets the prior
    value added once more. *)
Theorem C2_relative_mode_doubles_unnamed_axis :
  parse_gcode (R:=Z) relative_text =
  [mkSeg (mkVec3D 0 0 0) (mkVec3D 10 0 0) false 0;
   mkSeg (mkVec3D 10 0 0) (mkVec3D 20 5 0) false 0]%Z.
Proof. vm_compute. reflexivity. Qed.

Section Claims.
Context {R : Type} `{F32 R}.

(** C4: in relative mode each argument a motion command gives (the last one
    of its letter) is added to the prior value of that coordinate or of the
    extruded quantity. *)
Theorem C4_relative_mode_adds_prior (st : State R) (args : list (Word R))
  (Hrel : absolute_mode st = false) :
  let '(new_pos, new_e) := resolve_move st args in
  (forall v, last_arg "X" args = Some v -> x new_pos = f_add v (x (current_pos st))) /\
  (forall v, last_arg "Y" args = Some v -> y new_pos = f_add v (y (current_pos st))) /\
  (forall v, last_arg "Z" args = Some v -> z new_pos = f_add v (z (current_pos st))) /\
  (forall v, last_arg "E" args = Some v -> new_e = f_add v (e_pos st)).
Proof.
  rewrite resolve_move_eq, Hrel. simpl.
  repeat split; intros v Hv; rewrite Hv; reflexivity.
Qed.

(** C7: a motion command appends a segment exactly when the resolved position
    differs ([!=]) from the prior one in some coordinate, so every segment of
    [parse_gcode] has its start and end differing in some coordinate. *)
Theorem C7_segment_iff_moved :
  (forall (st : State R) args,
     let '(new_pos, new_e) := resolve_move st args in
     segments (step_move st args) =
     if moved new_pos (current_pos st)
     then segments st ++ [mkSeg (current_pos st) new_pos (f_lt (e_pos st) new_e) (z new_pos)]
     else segments st) /\
  (forall content, Forall (fun s => moved (end_ s) (start s) = true) (parse_gcode (R:=R) content)).
Proof.
  split.
  - intros st args. rewrite step_move_eq. destruct (resolve_move st args); reflexivity.
  - intros content. unfold parse_gcode.
    apply (parse_gcode_inv (fun st => Forall (fun s => moved (end_ s) (start s) = true) (segments st))).
    + constructor.
    + intros st g Hst.
      destruct (step_gcode_move_or_keep st g) as [[args ->] | [-> _]]; auto.
      rewrite step_move_eq. destruct (resolve_move st args) as [np ne].
      destruct (moved np (current_pos st)) eqn:Hm; simpl; auto.
      apply Forall_app; split; auto.
Qed.

(** C8: an appended segment is depositing exactly when the resolved extruded
    quantity is greater ([<] the other way round) than the prior one, and the
    position and the extruded quantity become the resolved ones whether or
    not a segment is appended. *)
Theorem C8_depositing_and_state_update (st : State R) (args : list (Word R)) :
  let '(new_pos, new_e) := resolve_move st args in
  current_pos (step_move st args) = new_pos /\
  e_pos (step_move st args) = new_e /\
  (forall s, segments (step_move st args) = segments st ++ [s] ->
             is_extrusion s = f_lt (e_pos st) new_e).
Proof.
  rewrite step_move_eq. destruct (resolve_move st args) as [np ne]. simpl.
  split; [reflexivity|]. split; [reflexivity|].
  intros s Hs. destruct (moved np (current_pos st)).
  - apply app_inv_head in Hs. injection Hs as <-. reflexivity.
  - rewrite <- (app_nil_r (segments st)) in Hs at 1.
    apply app_inv_head in Hs. discriminate Hs.
Qed.

End Claims.

(** ** Chaining of the segments *)

Section Chaining.
Context {R : Type} `{F32 R}.
Hypothesis f_eq_sym : forall a b : R, f_eq a b = true -> f_eq b a = true.
Hypothesis f_eq_trans : forall a b c : R, f_eq a b = true -> f_eq b c = true -> f_eq a c = true.

Lemma pt_eq_sym (a b : Vec3D R) : pt_eq a b = true -> pt_eq b a = true.
Proof.
  unfold pt_eq. rewrite !andb_true_iff. intros [[? ?] ?]. auto 6.
Qed.

Lemma pt_eq_trans (a b c : Vec3D R) : pt_eq a b = true -> pt_eq b c = true -> pt_eq a c = true.
Proof.
  unfold pt_eq. rewrite !andb_true_iff. intros [[? ?] ?] [[? ?] ?]. eauto 10.
Qed.

Definition chain_inv (st : State R) : Prop :=
  chained vzero (segments st) /\ same_point (last_end vzero (segments st)) (current_pos st).

Lemma chain_inv_step (st : State R) (g : GCode R) : chain_inv st -> chain_inv (step_gcode st g).
Proof.
  intros [Hch Hlast].
  destruct (step_gcode_move_or_keep st g) as [[args ->] | [Hs Hc]].
  - rewrite step_move_eq. destruct (resolve_move st args) as [np ne].
    destruct (moved np (current_pos st)) eqn:Hm; unfold chain_inv; simpl.
    + rewrite chained_snoc, last_end_snoc. split; [split; auto | left; reflexivity].
    + split; auto.
      apply moved_false_pt_eq, pt_eq_sym in Hm. right.
      destruct Hlast as [-> | Hl]; eauto using pt_eq_trans.
  - unfold chain_inv. rewrite Hs, Hc. split; auto.
Qed.

End Chaining.

(** C10: every segment of [parse_gcode] starts where the previous one ended,
    and the first one at the origin: the same point, or points whose
    coordinates compare equal with [==].  Holds for any [==] that is
    symmetric and transitive, as IEEE equality is. *)
Theorem C10_segments_chained {R : Type} `{F32 R}
  (f_eq_sym : forall a b : R, f_eq a b = true -> f_eq b a = true)
  (f_eq_trans : forall a b c : R, f_eq a b = true -> f_eq b c = true -> f_eq a c = true)
  (content : string) :
  chained vzero (parse_gcode (R:=R) content).
Proof.
  unfold parse_gcode.
  apply (parse_gcode_inv chain_inv).
  - split; [exact I | left; reflexivity].
  - apply (chain_inv_step f_eq_sym f_eq_trans).
Qed.

Lemma C10_witness :
  (forall a b : Z, Z.eqb a b = true -> Z.eqb b a = true) /\
  (forall a b c : Z, Z.eqb a b = true -> Z.eqb b c = true -> Z.eqb a c = true) /\
  chained vzero (parse_gcode (R:=Z) relative_text).
Proof.
  assert (Hs : forall a b : Z, Z.eqb a b = true -> Z.eqb b a = true)
    by (intros a b; rewrite !Z.eqb_eq; lia).
  assert (Ht : forall a b c : Z, Z.eqb a b = true -> Z.eqb b c = true -> Z.eqb a c = true)
    by (intros a b c; rewrite !Z.eqb_eq; lia).
  split; [exact Hs|]. split; [exact Ht|].
  exact (C10_segments_chained (R:=Z) Hs Ht relative_text).
Defined.

(** Relative mode at (10,0,0), nothing extruded yet. *)
Definition st_x10_rel : State Z := mkState [] (mkVec3D 10%Z 0%Z 0%Z) 0%Z false.

Lemma C4_witness :
  absolute_mode st_x10_rel = false /\
  x (fst (resolve_move (R:=Z) st_x10_rel [mkWord "X" 5%Z])) = 15%Z /\
  (let '(new_pos, new_e) := resolve_move (R:=Z) st_x10_rel [mkWord "X" 5%Z] in
   (forall v, last_arg "X" [mkWord "X" 5%Z] = Some v -> x new_pos = f_add v 10%Z) /\
   (forall v, last_arg "Y" [mkWord "X" 5%Z] = Some v -> y new_pos = f_add v 0%Z) /\
   (forall v, last_arg "Z" [mkWord "X" 5%Z] = Some v -> z new_pos = f_add v 0%Z) /\
   (forall v, last_arg "E" [mkWord "X" 5%Z] = Some v -> new_e = f_add v 0%Z)).
Proof.
  split; [reflexivity|]. split; [vm_compute; reflexivity|].
  exact (C4_relative_mode_adds_prior (R:=Z) st_x10_rel
           [mkWord "X" 5%Z] eq_refl).
Defined.

(** ** Index searches *)

Section Search.

Lemma last_index_shift (q : nat -> bool) (n : nat) :
  last_index q (S n) =
  match last_index (fun j => q (S j)) n with
  | Some k => Some (S k)
  | None => if q 0 then Some 0 else None
  end.
Proof.
  induction n as [|n IH]; simpl; [reflexivity|].
  destruct (q (S n)); [reflexivity|]. exact IH.
Qed.

Lemma first_index_shift (q : nat -> bool) (n : nat) :
  first_index q (S n) =
  if q 0 then Some 0 else option_map S (first_index (fun j => q (S j)) n).
Proof.
  induction n as [|n IH].
  - simpl. destruct (q 0); reflexivity.
  - change (first_index q (S (S n))) with
      (match first_index q (S n) with
       | Some i => Some i
       | None => if q (S n) then Some (S n) else None end).
    rewrite IH. destruct (q 0); [reflexivity|].
    cbn [first_index].
    destruct (first_index (fun j => q (S j)) n); simpl; [reflexivity|].
    destruct (q (S n)); reflexivity.
Qed.

Lemma first_index_ext (q q' : nat -> bool) (n : nat) :
  (forall j, j < n -> q j = q' j) -> first_index q n = first_index q' n.
Proof.
  induction n as [|n IH]; intros Hq; simpl; [reflexivity|].
  rewrite IH by (intros; apply Hq; lia). rewrite (Hq n) by lia. reflexivity.
Qed.

Lemma first_index_bound (q : nat -> bool) (n i : nat) :
  first_index q n = Some i -> i < n /\ q i = true.
Proof.
  induction n as [|n IH]; simpl; [discriminate|].
  destruct (first_index q n) eqn:E.
  - intros [= <-]. destruct (IH eq_refl). split; [lia|assumption].
  - destruct (q n) eqn:Eq; [intros [= <-]; split; [lia|assumption] | discriminate].
Qed.

Lemma last_index_bound (q : nat -> bool) (n k : nat) :
  last_index q n = Some k -> k < n.
Proof.
  induction n as [|n IH]; simpl; [discriminate|].
  destruct (q n); [intros [= <-]; lia | intros Hk; specialize (IH Hk); lia].
Qed.

Lemma last_index_above (q : nat -> bool) (n j : nat) :
  j < n -> q j = true -> exists k, last_index q n = Some k /\ j <= k.
Proof.
  induction n as [|n IH]; intros Hj Hq; simpl; [lia|].
  destruct (q n) eqn:E; [exists n; split; [reflexivity|lia]|].
  destruct (Nat.eq_dec j n) as [->|Hne]; [congruence|].
  apply IH; [lia|assumption].
Qed.

Lemma rposition_aux_eq {A} (p : A -> bool) (l : list A) (i : nat) (acc : option nat) :
  rposition_aux p i l acc =
  match last_index (fun j => match nth_error l j with Some a => p a | None => false end)
          (length l) with
  | Some k => Some (i + k)
  | None => acc
  end.
Proof.
  revert i acc; induction l as [|a l IH]; intros i acc; [reflexivity|].
  cbn [rposition_aux length]. rewrite IH, last_index_shift. cbn [nth_error].
  destruct (last_index _ (length l)) as [k|].
  - f_equal. lia.
  - destruct (p a); [f_equal; lia | reflexivity].
Qed.

Lemma find_window_eq {A} (c : A -> bool) (ws : list A) (k : nat) :
  (fix find (i : nat) (ws : list A) : option nat :=
     match ws with
     | [] => None
     | w :: ws' => if c w then Some i else find (S i) ws'
     end) k ws =
  option_map (Nat.add k)
    (first_index (fun j => match nth_error ws j with Some w => c w | None => false end)
       (length ws)).
Proof.
  revert k; induction ws as [|w ws IH]; intros k; [reflexivity|].
  cbn [length]. rewrite first_index_shift. simpl.
  destruct (c w); [simpl; f_equal; lia|].
  rewrite IH. destruct (first_index _ (length ws)); simpl; [f_equal; lia | reflexivity].
Qed.

Lemma nth_error_windows {A} (n : nat) (l : list A) (j : nat) :
  0 < n ->
  nth_error (windows n l) j =
  if Nat.leb (j + n) (length l) then Some (firstn n (skipn j l)) else None.
Proof.
  intros Hn; revert j; induction l as [|a l IH]; intros j; simpl.
  - assert (E : Nat.leb (j + n) 0 = false) by (apply Nat.leb_gt; lia).
    rewrite E. destruct j; reflexivity.
  - destruct (Nat.leb n (S (length l))) eqn:En.
    + destruct j as [|j]; simpl; [rewrite En; reflexivity|].
      rewrite IH. reflexivity.
    + apply Nat.leb_gt in En.
      assert (E : Nat.leb (j + n) (S (length l)) = false) by (apply Nat.leb_gt; lia).
      rewrite E. destruct j; reflexivity.
Qed.

Lemma length_windows {A} (n : nat) (l : list A) :
  0 < n -> length (windows n l) = length l - (n - 1).
Proof.
  intros Hn; induction l as [|a l IH]; [reflexivity|].
  cbn [windows length].
  destruct (Nat.leb n (S (length l))) eqn:En.
  - apply Nat.leb_le in En. cbn [length]. rewrite IH. lia.
  - apply Nat.leb_gt in En. cbn [length]. lia.
Qed.

End Search.

(** ** The trimmer *)

Section Trimmer.
Context {R : Type} `{F32 R}.

Definition window_cond (w : list (LineSegment R)) : bool :=
  Nat.leb 3 (extrusion_count w) && forallb away_from_edge w.

Lemma start_index_eq (segs : list (LineSegment R)) :
  start_index segs = first_index (fun j => window_cond (window_at segs j)) (length segs - 4).
Proof.
  unfold start_index.
  transitivity
    (option_map (Nat.add 0)
       (first_index (fun j => match nth_error (windows 5 segs) j with
                              | Some w => window_cond w | None => false end)
          (length (windows 5 segs)))).
  { exact (find_window_eq window_cond (windows 5 segs) 0). }
  rewrite length_windows by lia. simpl Nat.sub.
  destruct (first_index _ _) as [i|] eqn:E; simpl;
  rewrite <- E; apply first_index_ext; intros j Hj;
  rewrite nth_error_windows by lia;
  replace (Nat.leb (j + 5) (length segs)) with true by (symmetry; apply Nat.leb_le; lia);
  reflexivity.
Qed.

Lemma end_index_eq (segs : list (LineSegment R)) :
  end_index segs = option_map S (last_depositing segs).
Proof.
  unfold end_index, rposition, last_depositing.
  rewrite rposition_aux_eq. unfold depositing_at.
  destruct (last_index _ _); reflexivity.
Qed.

Lemma window_has_depositing (segs : list (LineSegment R)) (i : nat) :
  Nat.leb 3 (extrusion_count (window_at segs i)) = true ->
  exists m, m < 5 /\ i + m < length segs /\ depositing_at segs (i + m) = true.
Proof.
  intros Hc. apply Nat.leb_le in Hc. unfold extrusion_count in Hc.
  destruct (filter is_extrusion (window_at segs i)) as [|s rest] eqn:Ef;
    [simpl in Hc; lia|].
  assert (Hin : In s (filter is_extrusion (window_at segs i))) by (rewrite Ef; left; reflexivity).
  apply filter_In in Hin as [Hin Hs].
  apply In_nth_error in Hin as [m Hm].
  unfold window_at in Hm. rewrite nth_error_firstn in Hm.
  destruct (Nat.ltb m 5) eqn:Em; [|discriminate].
  apply Nat.ltb_lt in Em. rewrite nth_error_skipn in Hm.
  exists m. split; [exact Em|]. split.
  - apply nth_error_Some. rewrite Hm. discriminate.
  - unfold depositing_at. rewrite Hm. exact Hs.
Qed.

(** The boundaries are in range and a start found by the window search lies
    before the end. *)
Lemma trim_bounds_ok (segs : list (LineSegment R)) :
  let '(start, stop) := trim_bounds segs in
  start <= stop <= length segs /\
  (forall i, start_index segs = Some i -> i < stop).
Proof.
  unfold trim_bounds. rewrite end_index_eq.
  assert (Hend : forall k, last_depositing segs = Some k -> k < length segs)
    by (intros k; apply last_index_bound).
  assert (Hstart : forall i, start_index segs = Some i ->
            exists k, last_depositing segs = Some k /\ i <= k).
  { intros i Hi. rewrite start_index_eq in Hi.
    apply first_index_bound in Hi as [_ Hw].
    apply andb_true_iff in Hw as [Hc _].
    destruct (window_has_depositing segs i Hc) as (m & _ & Hlt & Hd).
    destruct (last_index_above (depositing_at segs) (length segs) (i + m) Hlt Hd)
      as (k & Hk & Hle).
    exists k. split; [exact Hk|lia]. }
  destruct (start_index segs) as [i|] eqn:Es.
  - destruct (Hstart i eq_refl) as (k & Hk & Hik). rewrite Hk. simpl.
    specialize (Hend k Hk).
    split; [lia|]. intros i' [= <-]. lia.
  - simpl. split; [|discriminate].
    destruct (last_depositing segs) as [k|] eqn:Hk; simpl; [specialize (Hend k eq_refl)|]; lia.
Qed.

Lemma filter_priming_lines_slice (segs : list (LineSegment R)) :
  let '(start, stop) := trim_bounds segs in
  filter_priming_lines segs = Some (firstn (stop - start) (skipn start segs)).
Proof.
  pose proof (trim_bounds_ok segs) as Hok.
  destruct (trim_bounds segs) as [start stop] eqn:Et.
  destruct Hok as [[Hss Hsl] _].
  unfold filter_priming_lines. destruct segs as [|s segs'].
  - simpl in Hsl. assert (start = 0) by lia. assert (stop = 0) by lia. subst. reflexivity.
  - rewrite Et. unfold slice.
    replace (Nat.leb start stop && Nat.leb stop (length (s :: segs'))) with true; [reflexivity|].
    symmetry. apply andb_true_iff. split; apply Nat.leb_le; assumption.
Qed.

Lemma away_from_edge_spec
  (HLe : forall a b : R, f_le a b = negb (f_lt b a)) (s : LineSegment R) :
  away_from_edge s = segment_ok_spec s.
Proof.
  unfold away_from_edge, segment_ok_spec. rewrite !HLe.
  destruct (f_lt (x (start s)) (f_of_Z 10)), (f_lt (x (end_ s)) (f_of_Z 10)),
    (f_lt (y (start s)) (f_of_Z 20)), (f_lt (y (end_ s)) (f_of_Z 20)),
    (f_lt (f_of_Z 100) (f_abs (f_sub (x (end_ s)) (x (start s))))),
    (f_lt (f_of_Z 100) (f_abs (f_sub (y (end_ s)) (y (start s))))); reflexivity.
Qed.

End Trimmer.

(** ** Bounds *)

Section BoundsFacts.
Context {R : Type} `{F32 R} `{F32Extrema R}.

Lemma compute_bounds_from (segs : list (LineSegment R)) (b : Bounds) :
  fold_left (fun b seg => if is_extrusion seg then expand (expand b (start seg)) (end_ seg) else b)
    segs b =
  fold_left (fun b seg => expand (expand b (start seg)) (end_ seg)) (filter is_extrusion segs) b.
Proof.
  revert b; induction segs as [|s segs IH]; intros b; simpl; [reflexivity|].
  destruct (is_extrusion s); simpl; apply IH.
Qed.

End BoundsFacts.

(** C6: [compute_bounds] expands the bounds over the start and end points of
    the depositing segments only, in order, and with no depositing segment
    returns [Bounds::new()], the infinite extrema. *)
Theorem C6_bounds_depositing_only {R : Type} `{F32 R} `{F32Extrema R}
  (segs : list (LineSegment R)) :
  compute_bounds segs =
  fold_left (fun b seg => expand (expand b (start seg)) (end_ seg))
    (filter is_extrusion segs) bounds_new /\
  (filter is_extrusion segs = [] ->
   compute_bounds segs =
   mkBounds (mkVec3D f_inf f_inf f_inf) (mkVec3D f_neg_inf f_neg_inf f_neg_inf)).
Proof.
  unfold compute_bounds. rewrite compute_bounds_from.
  split; [reflexivity|]. intros ->. reflexivity.
Qed.

(** ** Trimmer claims *)

(** A depositing segment followed by a travel move. *)
Definition two_segments : list (LineSegment Z) :=
  [mkSeg (mkVec3D 0 0 0) (mkVec3D 10 0 0) true 0;
   mkSeg (mkVec3D 10 0 0) (mkVec3D 20 0 0) false 0]%Z.

(** C3 (as stated): fewer than 5 segments with one depositing are not kept
    whole: the trailing travel move is cut. *)
Lemma C3_short_input_not_kept_whole :
  length two_segments < 5 /\ existsb is_extrusion two_segments = true /\
  filter_priming_lines two_segments <> Some two_segments.
Proof.
  split; [simpl; lia|]. split; [reflexivity|].
  vm_compute. discriminate.
Qed.

(** C3 (amended): the trimmer's range satisfies [0 <= start <= end <= len]
    and it returns that slice; with fewer than 5 segments and a depositing
    one among them, it returns the segments up to and including the last
    depositing one. *)
Theorem C3_trim_range {R : Type} `{F32 R} (segs : list (LineSegment R)) :
  (let '(start, stop) := trim_bounds segs in
   0 <= start <= stop /\ stop <= length segs /\
   filter_priming_lines segs = Some (firstn (stop - start) (skipn start segs))) /\
  (length segs < 5 -> forall k, last_depositing segs = Some k ->
   filter_priming_lines segs = Some (firstn (S k) segs)).
Proof.
  split.
  - pose proof (trim_bounds_ok segs) as Hok. pose proof (filter_priming_lines_slice segs) as Hs.
    destruct (trim_bounds segs) as [start stop].
    destruct Hok as [[? ?] _]. split; [lia|]. split; assumption.
  - intros Hlen k Hk.
    pose proof (filter_priming_lines_slice segs) as Hs.
    unfold trim_bounds in Hs.
    rewrite start_index_eq, end_index_eq, Hk in Hs.
    replace (length segs - 4) with 0 in Hs by lia. simpl in Hs.
    rewrite Hs. simpl. rewrite ?Nat.sub_0_r. reflexivity.
Qed.

(** C5: the start boundary is the first [i] whose window of 5 segments has at
    least 3 depositing ones and only segments with both ends at [x >= 10],
    [y >= 20] and x- and y-extent at most 100, else 0; the end boundary is one
    past the last depositing segment, else the length.  [x >= 10] is read as
    [f_le 10 x]; the code tests [!(x < 10)], and the two agree whenever
    [<=] is the negation of the flipped [<], i.e. on ordered values (for IEEE
    numbers: away from NaN). *)
Theorem C5_trim_boundaries {R : Type} `{F32 R}
  (HLe : forall a b : R, f_le a b = negb (f_lt b a))
  (segs : list (LineSegment R)) :
  trim_bounds segs = (start_spec segs, end_spec segs).
Proof.
  unfold trim_bounds, start_spec, end_spec.
  rewrite start_index_eq, end_index_eq.
  f_equal.
  - f_equal. apply first_index_ext. intros j _.
    unfold window_cond, window_ok_spec, extrusion_count. f_equal.
    induction (window_at segs j) as [|s w IH]; [reflexivity|].
    simpl. rewrite IH, (away_from_edge_spec HLe). reflexivity.
  - destruct (last_depositing segs); reflexivity.
Qed.

(** C9: on a non-empty input, [start <= end <= len], the slice is taken
    without panicking, and a start found by the window search lies strictly
    before the end. *)
Theorem C9_trim_slice_in_bounds {R : Type} `{F32 R}
  (segs : list (LineSegment R)) (Hne : segs <> []) :
  let '(start, stop) := trim_bounds segs in
  start <= stop <= length segs /\
  filter_priming_lines segs <> None /\
  (forall i, start_index segs = Some i -> i < stop).
Proof.
  pose proof (trim_bounds_ok segs) as Hok. pose proof (filter_priming_lines_slice segs) as Hs.
  destruct (trim_bounds segs) as [start stop].
  destruct Hok as [Hr Hi]. split; [exact Hr|]. split; [|exact Hi].
  rewrite Hs. discriminate.
Qed.

(** A priming move from the corner, five depositing moves in the middle of
    the bed, and a travel move back. *)
Definition print_segments : list (LineSegment Z) :=
  [mkSeg (mkVec3D 0 0 0) (mkVec3D 50 50 0) false 0;
   mkSeg (mkVec3D 50 50 0) (mkVec3D 60 50 0) true 0;
   mkSeg (mkVec3D 60 50 0) (mkVec3D 60 60 0) true 0;
   mkSeg (mkVec3D 60 60 0) (mkVec3D 50 60 0) true 0;
   mkSeg (mkVec3D 50 60 0) (mkVec3D 50 50 0) true 0;
   mkSeg (mkVec3D 50 50 0) (mkVec3D 55 55 0) true 0;
   mkSeg (mkVec3D 55 55 0) (mkVec3D 0 0 0) false 0]%Z.

Lemma Z_le_not_gt (a b : Z) : Z.leb a b = negb (Z.ltb b a).
Proof. destruct (Z.leb_spec a b), (Z.ltb_spec b a); simpl; reflexivity || lia. Qed.

Lemma C5_witness :
  (forall a b : Z, f_le a b = negb (f_lt b a)) /\
  trim_bounds print_segments = (start_spec print_segments, end_spec print_segments) /\
  trim_bounds print_segments = (1, 6).
Proof.
  split; [exact Z_le_not_gt|]. split.
  - exact (C5_trim_boundaries (R:=Z) Z_le_not_gt print_segments).
  - vm_compute. reflexivity.
Defined.

Lemma C9_witness :
  print_segments <> [] /\
  (let '(start, stop) := trim_bounds print_segments in
   start <= stop <= length print_segments /\
   filter_priming_lines print_segments <> None /\
   (forall i, start_index print_segments = Some i -> i < stop)).
Proof.
  assert (Hne : print_segments <> []) by discriminate.
  split; [exact Hne|].
  exact (C9_trim_slice_in_bounds (R:=Z) print_segments Hne).
Defined.

(** ** Further facts about the trimmer *)

Section TrimmerMore.
Context {R : Type} `{F32 R}.

Lemma first_index_none (q : nat -> bool) (n : nat) :
  first_index q n = None <-> (forall j, j < n -> q j = false).
Proof.
  induction n as [|n IH]; simpl.
  - split; [intros _ j Hj; lia | reflexivity].
  - destruct (first_index q n) eqn:E.
    + split; [discriminate|]. intros Hall.
      apply first_index_bound in E as [Hi Hq]. rewrite Hall in Hq by lia. discriminate.
    + destruct (q n) eqn:Eq.
      * split; [discriminate|]. intros Hall. rewrite Hall in Eq by lia. discriminate.
      * split; [|reflexivity]. intros _ j Hj.
        destruct (Nat.eq_dec j n) as [->|]; [exact Eq|].
        apply (proj1 IH eq_refl). lia.
Qed.

Lemma start_index_depositing (segs : list (LineSegment R)) (i : nat) :
  start_index segs = Some i ->
  exists m, m < 5 /\ i + m < length segs /\ depositing_at segs (i + m) = true.
Proof.
  intros Hi. rewrite start_index_eq in Hi.
  apply first_index_bound in Hi as [_ Hw].
  apply andb_true_iff in Hw as [Hc _].
  exact (window_has_depositing segs i Hc).
Qed.

Lemma depositing_at_In (segs : list (LineSegment R)) (j : nat) :
  depositing_at segs j = true -> exists s, In s segs /\ is_extrusion s = true.
Proof.
  unfold depositing_at. destruct (nth_error segs j) as [s|] eqn:E; [|discriminate].
  intros Hs. exists s. split; [eapply nth_error_In; eauto | exact Hs].
Qed.

Lemma last_depositing_none (segs : list (LineSegment R)) :
  (forall s, In s segs -> is_extrusion s = false) -> last_depositing segs = None.
Proof.
  intros Hall. destruct (last_depositing segs) as [k|] eqn:Hk; [|reflexivity].
  exfalso. unfold last_depositing in Hk.
  assert (Hd : depositing_at segs k = true).
  { clear Hall. revert Hk. generalize (length segs). intros n.
    induction n as [|n IH]; simpl; [discriminate|].
    destruct (depositing_at segs n) eqn:E; [intros [= <-]; exact E | exact IH]. }
  destruct (depositing_at_In segs k Hd) as (s & Hin & Hs).
  rewrite (Hall s Hin) in Hs. discriminate.
Qed.

Lemma last_depositing_some (segs : list (LineSegment R)) (s : LineSegment R) :
  In s segs -> is_extrusion s = true ->
  exists k, last_depositing segs = Some k /\ k < length segs /\ depositing_at segs k = true.
Proof.
  intros Hin Hs. apply In_nth_error in Hin as [j Hj].
  assert (Hjl : j < length segs) by (apply nth_error_Some; rewrite Hj; discriminate).
  assert (Hd : depositing_at segs j = true) by (unfold depositing_at; rewrite Hj; exact Hs).
  destruct (last_index_above (depositing_at segs) (length segs) j Hjl Hd) as (k & Hk & _).
  exists k. split; [exact Hk|]. split; [eapply last_index_bound; eauto|].
  unfold last_depositing in Hk. revert Hk. generalize (length segs). intros n.
  induction n as [|n IH]; simpl; [discriminate|].
  destruct (depositing_at segs n) eqn:E; [intros [= <-]; exact E | exact IH].
Qed.

(** On a non-empty input the start lies strictly before the end. *)
Lemma trim_bounds_lt (segs : list (LineSegment R)) :
  segs <> [] -> fst (trim_bounds segs) < snd (trim_bounds segs).
Proof.
  intros Hne. pose proof (trim_bounds_ok segs) as Hok.
  unfold trim_bounds in *. destruct (start_index segs) as [i|] eqn:Es; simpl in *.
  - destruct Hok as [_ Hi]. exact (Hi i eq_refl).
  - rewrite end_index_eq. destruct (last_depositing segs); simpl; [lia|].
    destruct segs; [congruence|simpl; lia].
Qed.

(** The trimmed list, its bounds and its elements. *)
Lemma trimmed_nth (segs : list (LineSegment R)) (j : nat) :
  let '(start, stop) := trim_bounds segs in
  j < stop - start ->
  nth_error (firstn (stop - start) (skipn start segs)) j = nth_error segs (start + j).
Proof.
  destruct (trim_bounds segs) as [start stop]. intros Hj.
  rewrite nth_error_firstn. replace (Nat.ltb j (stop - start)) with true
    by (symmetry; apply Nat.ltb_lt; exact Hj).
  apply nth_error_skipn.
Qed.

Lemma length_trimmed (segs : list (LineSegment R)) :
  let '(start, stop) := trim_bounds segs in
  length (firstn (stop - start) (skipn start segs)) = stop - start.
Proof.
  pose proof (trim_bounds_ok segs) as Hok.
  destruct (trim_bounds segs) as [start stop]. destruct Hok as [[? ?] _].
  rewrite length_firstn, length_skipn. lia.
Qed.

End TrimmerMore.

(** X1: [filter_priming_lines] never panics and returns a contiguous run of
    its input: the input is some prefix, then the output, then some suffix. *)
Theorem X1_trim_is_infix {R : Type} `{F32 R} (segs : list (LineSegment R)) :
  exists t pre post, filter_priming_lines segs = Some t /\ segs = pre ++ t ++ post.
Proof.
  pose proof (filter_priming_lines_slice segs) as Hs.
  destruct (trim_bounds segs) as [start stop].
  exists (firstn (stop - start) (skipn start segs)), (firstn start segs),
    (skipn (stop - start) (skipn start segs)).
  split; [exact Hs|].
  rewrite firstn_skipn, firstn_skipn. reflexivity.
Qed.

Lemma filter_priming_lines_nonempty {R : Type} `{F32 R} (segs : list (LineSegment R)) :
  segs <> [] -> exists t, filter_priming_lines segs = Some t /\ t <> [].
Proof.
  intros Hne.
  pose proof (filter_priming_lines_slice segs) as Hs.
  pose proof (length_trimmed segs) as Hl.
  pose proof (trim_bounds_lt segs Hne) as Hlt.
  destruct (trim_bounds segs) as [start stop]. simpl in Hlt.
  eexists. split; [exact Hs|].
  intros Hnil. rewrite Hnil in Hl. simpl in Hl. lia.
Qed.

(** X2: a non-empty input is never trimmed away completely. *)
Theorem X2_trim_nonempty {R : Type} `{F32 R} (segs : list (LineSegment R))
  (Hne : segs <> []) :
  exists t, filter_priming_lines segs = Some t /\ t <> [].
Proof. exact (filter_priming_lines_nonempty segs Hne). Qed.

(** X3: an input without any depositing segment is returned unchanged. *)
Theorem X3_trim_keeps_travel_only {R : Type} `{F32 R} (segs : list (LineSegment R))
  (Hnone : forall s, In s segs -> is_extrusion s = false) :
  filter_priming_lines segs = Some segs.
Proof.
  pose proof (filter_priming_lines_slice segs) as Hs.
  assert (Hb : trim_bounds segs = (0, length segs)).
  { unfold trim_bounds. rewrite end_index_eq, (last_depositing_none segs Hnone).
    destruct (start_index segs) as [i|] eqn:Ei; [|reflexivity].
    exfalso. destruct (start_index_depositing segs i Ei) as (m & _ & _ & Hd).
    destruct (depositing_at_In segs _ Hd) as (s & Hin & Hx).
    rewrite (Hnone s Hin) in Hx. discriminate. }
  rewrite Hb in Hs. rewrite Hs. simpl. rewrite Nat.sub_0_r, firstn_all. reflexivity.
Qed.

(** X4: when the input has a depositing segment, the output ends with a
    depositing segment: the trailing travel moves are all cut. *)
Theorem X4_trim_ends_depositing {R : Type} `{F32 R} (segs : list (LineSegment R))
  (s : LineSegment R) (Hin : In s segs) (Hs : is_extrusion s = true) :
  exists t s', filter_priming_lines segs = Some t /\
               nth_error t (length t - 1) = Some s' /\ is_extrusion s' = true.
Proof.
  pose proof (filter_priming_lines_slice segs) as Hsl.
  pose proof (length_trimmed segs) as Hl.
  pose proof (trimmed_nth segs) as Hn.
  assert (Hlt : fst (trim_bounds segs) < snd (trim_bounds segs))
    by (apply trim_bounds_lt; intros ->; destruct Hin).
  destruct (last_depositing_some segs s Hin Hs) as (k & Hk & Hkl & Hdk).
  assert (He : snd (trim_bounds segs) = S k)
    by (unfold trim_bounds; rewrite end_index_eq, Hk; reflexivity).
  destruct (trim_bounds segs) as [start stop]. simpl in He, Hlt. subst stop.
  unfold depositing_at in Hdk. destruct (nth_error segs k) as [s'|] eqn:Es'; [|discriminate].
  exists (firstn (S k - start) (skipn start segs)), s'.
  split; [exact Hsl|]. split; [|exact Hdk].
  rewrite Hl, Hn by lia. replace (start + (S k - start - 1)) with k by lia. exact Es'.
Qed.

Section TrimIdem.
Context {R : Type} `{F32 R}.

Lemma trimmed_end (segs : list (LineSegment R)) :
  let '(start, stop) := trim_bounds segs in
  snd (trim_bounds (firstn (stop - start) (skipn start segs))) = stop - start.
Proof.
  pose proof (length_trimmed segs) as Hl.
  pose proof (trimmed_nth segs) as Hn.
  pose proof (trim_bounds_ok segs) as Hok.
  destruct (last_depositing segs) as [k|] eqn:Hk.
  - assert (Hkl : k < length segs) by (eapply last_index_bound; eauto).
    assert (Hne : segs <> []) by (intros ->; simpl in Hkl; lia).
    pose proof (trim_bounds_lt segs Hne) as Hlt.
    assert (Hdk : depositing_at segs k = true).
    { unfold last_depositing in Hk. revert Hk. generalize (length segs). intros n.
      induction n as [|n IH]; simpl; [discriminate|].
      destruct (depositing_at segs n) eqn:E; [intros [= <-]; exact E | exact IH]. }
    assert (He : snd (trim_bounds segs) = S k)
      by (unfold trim_bounds; rewrite end_index_eq, Hk; reflexivity).
    destruct (trim_bounds segs) as [start stop]. simpl in He, Hlt. subst stop.
    set (t := firstn (S k - start) (skipn start segs)) in *.
    unfold trim_bounds. rewrite end_index_eq. unfold last_depositing. rewrite Hl.
    replace (S k - start) with (S (k - start)) by lia. simpl.
    replace (depositing_at t (k - start)) with true; [reflexivity|].
    unfold depositing_at in *. rewrite Hn by lia.
    replace (start + (k - start)) with k by lia. symmetry. exact Hdk.
  - assert (Hnone : forall s, In s segs -> is_extrusion s = false).
    { intros s Hin. destruct (is_extrusion s) eqn:Hs; [|reflexivity].
      destruct (last_depositing_some segs s Hin Hs) as (k & Hk' & _). congruence. }
    destruct (trim_bounds segs) as [start stop].
    unfold trim_bounds at 1. rewrite end_index_eq, last_depositing_none; [simpl; exact Hl|].
    intros s Hin. apply Hnone.
    rewrite <- (firstn_skipn start segs), <- (firstn_skipn (stop - start) (skipn start segs)).
    apply in_or_app. right. apply in_or_app. left. exact Hin.
Qed.

Lemma window_at_trimmed (segs : list (LineSegment R)) (start stop j : nat) :
  start + j + 5 <= stop ->
  window_at (firstn (stop - start) (skipn start segs)) j = window_at segs (start + j).
Proof.
  intros Hj. unfold window_at.
  rewrite skipn_firstn_comm, firstn_firstn, skipn_skipn.
  replace (Nat.min 5 (stop - start - j)) with 5 by lia.
  rewrite Nat.add_comm. reflexivity.
Qed.

Lemma trimmed_start (segs : list (LineSegment R)) :
  let '(start, stop) := trim_bounds segs in
  fst (trim_bounds (firstn (stop - start) (skipn start segs))) = 0.
Proof.
  pose proof (length_trimmed segs) as Hl.
  pose proof (trim_bounds_ok segs) as Hok.
  assert (Htb : trim_bounds segs =
    (unwrap_or (start_index segs) 0, unwrap_or (end_index segs) (length segs))) by reflexivity.
  rewrite Htb in Hl, Hok |- *. clear Htb.
  destruct (start_index segs) as [i|] eqn:Ei.
  - pose proof Ei as Ei'. rewrite start_index_eq in Ei'.
    apply first_index_bound in Ei' as [_ Hw].
    simpl. simpl in Hl, Hok. set (t := firstn _ (skipn i segs)) in *.
    unfold trim_bounds. simpl. rewrite start_index_eq, Hl.
    destruct (unwrap_or (end_index segs) (length segs) - i - 4) as [|m] eqn:Em;
      [reflexivity|].
    rewrite first_index_shift. unfold t.
    rewrite (window_at_trimmed segs i _ 0) by lia. rewrite Nat.add_0_r, Hw. reflexivity.
  - simpl. simpl in Hl, Hok. destruct Hok as [[_ Hle] _].
    set (stop := unwrap_or (end_index segs) (length segs)) in *.
    unfold trim_bounds. simpl. rewrite start_index_eq, Hl.
    rewrite start_index_eq in Ei. pose proof (proj1 (first_index_none _ _) Ei) as Hall.
    replace (first_index _ (stop - 0 - 4)) with (@None nat); [reflexivity|].
    symmetry. apply (proj2 (first_index_none _ _)). intros j Hj.
    pose proof (window_at_trimmed segs 0 stop j) as W.
    change (skipn 0 segs) with segs in W. rewrite W by lia. apply Hall. lia.
Qed.

End TrimIdem.

(** X5: trimming is idempotent: trimming the output of the trimmer again
    returns it unchanged. *)
Theorem X5_trim_idempotent {R : Type} `{F32 R} (segs : list (LineSegment R)) :
  exists t, filter_priming_lines segs = Some t /\ filter_priming_lines t = Some t.
Proof.
  pose proof (filter_priming_lines_slice segs) as Hs.
  pose proof (trimmed_end segs) as He.
  pose proof (trimmed_start segs) as Hst.
  pose proof (length_trimmed segs) as Hl.
  destruct (trim_bounds segs) as [start stop].
  set (t := firstn (stop - start) (skipn start segs)) in *.
  exists t. split; [exact Hs|].
  pose proof (filter_priming_lines_slice t) as Ht.
  destruct (trim_bounds t) as [a b]. simpl in He, Hst. subst a b.
  rewrite Ht. change (skipn 0 t) with t. rewrite Nat.sub_0_r, <- Hl, firstn_all. reflexivity.
Qed.

(** ** Further facts about the interpreter *)

(** X6: every segment of [parse_gcode] records as [layer_z] the z of its end. *)
Theorem X6_layer_z_is_end_z {R : Type} `{F32 R} (content : string) :
  Forall (fun s => layer_z s = z (end_ s)) (parse_gcode (R:=R) content).
Proof.
  unfold parse_gcode.
  apply (parse_gcode_inv (fun st => Forall (fun s => layer_z s = z (end_ s)) (segments st))).
  - constructor.
  - intros st g Hst.
    destruct (step_gcode_move_or_keep st g) as [[args ->] | [-> _]]; auto.
    rewrite step_move_eq. destruct (resolve_move st args) as [np ne].
    destruct (moved np (current_pos st)); simpl; auto.
    apply Forall_app; split; auto.
Qed.

(** X7: in absolute mode a motion command carries forward every coordinate
    and the extruded quantity it does not name, and sets each one it names
    to the last value given for it. *)
Theorem X7_absolute_mode_carry_forward {R : Type} `{F32 R}
  (st : State R) (args : list (Word R)) (Habs : absolute_mode st = true) :
  resolve_move st args =
  (mkVec3D (unwrap_or (last_arg "X" args) (x (current_pos st)))
           (unwrap_or (last_arg "Y" args) (y (current_pos st)))
           (unwrap_or (last_arg "Z" args) (z (current_pos st))),
   unwrap_or (last_arg "E" args) (e_pos st)).
Proof. rewrite resolve_move_eq, Habs. reflexivity. Qed.

(** X8: in absolute mode a move without an [E] argument gives a
    non-depositing segment (for a [<] that is irreflexive). *)
Theorem X8_absolute_move_without_e_is_travel {R : Type} `{F32 R}
  (Hirr : forall a : R, f_lt a a = false)
  (st : State R) (args : list (Word R))
  (Habs : absolute_mode st = true) (HnoE : last_arg "E" args = None)
  (s : LineSegment R) (Hs : segments (step_move st args) = segments st ++ [s]) :
  is_extrusion s = false.
Proof.
  rewrite step_move_eq, resolve_move_eq, Habs, HnoE in Hs. simpl in Hs.
  destruct (moved _ (current_pos st)).
  - apply app_inv_head in Hs. injection Hs as <-. apply Hirr.
  - rewrite <- (app_nil_r (segments st)) in Hs at 1.
    apply app_inv_head in Hs. discriminate Hs.
Qed.

(** X9: running commands only appends segments: the segments already
    produced are kept, in order. *)
Theorem X9_segments_only_appended {R : Type} `{F32 R} (st : State R) (gs : list (GCode R)) :
  exists l, segments (run_gcodes st gs) = segments st ++ l.
Proof.
  apply (run_gcodes_inv (fun st' => exists l, segments st' = segments st ++ l)).
  - intros st' g [l Hl].
    destruct (step_gcode_move_or_keep st' g) as [[args ->] | [-> _]]; [|exists l; exact Hl].
    rewrite step_move_eq. destruct (resolve_move st' args) as [np ne].
    destruct (moved np (current_pos st')); simpl.
    + exists (l ++ [mkSeg (current_pos st') np (f_lt (e_pos st') ne) (z np)]).
      rewrite Hl, app_assoc. reflexivity.
    + exists l. exact Hl.
  - exists []. rewrite app_nil_r. reflexivity.
Qed.

(** Absolute mode at (10,20,0), 5 extruded so far. *)
Definition st_abs : State Z := mkState [] (mkVec3D 10%Z 20%Z 0%Z) 5%Z true.

Definition args_x7 : list (Word Z) := [mkWord "X" 7%Z].

Lemma X7_witness :
  absolute_mode st_abs = true /\
  resolve_move st_abs args_x7 = (mkVec3D 7%Z 20%Z 0%Z, 5%Z).
Proof.
  split; [reflexivity|].
  exact (X7_absolute_mode_carry_forward st_abs args_x7 eq_refl).
Defined.

Lemma X8_witness :
  absolute_mode st_abs = true /\ last_arg "E" args_x7 = None /\
  segments (step_move st_abs args_x7) =
    segments st_abs ++ [mkSeg (mkVec3D 10 20 0) (mkVec3D 7 20 0) false 0]%Z /\
  is_extrusion (mkSeg (mkVec3D 10 20 0) (mkVec3D 7 20 0) false 0)%Z = false.
Proof.
  assert (Hirr : forall a : Z, f_lt a a = false) by (intros a; apply Z.ltb_irrefl).
  split; [reflexivity|]. split; [reflexivity|].
  assert (Hs : segments (step_move st_abs args_x7) =
    segments st_abs ++ [mkSeg (mkVec3D 10 20 0) (mkVec3D 7 20 0) false 0]%Z)
    by (vm_compute; reflexivity).
  split; [exact Hs|].
  exact (X8_absolute_move_without_e_is_travel Hirr st_abs args_x7 eq_refl eq_refl _ Hs).
Defined.

(** ** Further facts about the bounds *)

Section BoundsMore.
Context {R : Type} `{F32Extrema R}.
Variable le : R -> R -> bool.
Hypothesis Hmin_l : forall a b, le (f_min a b) a = true.
Hypothesis Hmin_r : forall a b, le (f_min a b) b = true.
Hypothesis Hmax_l : forall a b, le a (f_max a b) = true.
Hypothesis Hmax_r : forall a b, le b (f_max a b) = true.
Hypothesis Htrans : forall a b c, le a b = true -> le b c = true -> le a c = true.

Lemma expand_within_new (b : Bounds) (p : Vec3D R) : within le (expand b p) p.
Proof. unfold within, expand; simpl; repeat split; auto. Qed.

Lemma expand_within_old (b : Bounds) (p q : Vec3D R) :
  within le b q -> within le (expand b p) q.
Proof.
  unfold within, expand; simpl. intros (? & ? & ? & ? & ? & ?).
  repeat split; eauto.
Qed.

Lemma fold_bounds_within_old (segs : list (LineSegment R)) (b : Bounds) (q : Vec3D R) :
  within le b q ->
  within le (fold_left (fun b seg => if is_extrusion seg
                                     then expand (expand b (start seg)) (end_ seg) else b)
               segs b) q.
Proof.
  revert b; induction segs as [|s segs IH]; intros b Hb; simpl; [exact Hb|].
  apply IH. destruct (is_extrusion s); [|exact Hb].
  apply expand_within_old, expand_within_old, Hb.
Qed.

Lemma fold_bounds_within_depositing (segs : list (LineSegment R)) (b : Bounds) (s : LineSegment R) :
  In s segs -> is_extrusion s = true ->
  let b' := fold_left (fun b seg => if is_extrusion seg
                                    then expand (expand b (start seg)) (end_ seg) else b)
              segs b in
  within le b' (start s) /\ within le b' (end_ s).
Proof.
  revert b; induction segs as [|s0 segs IH]; intros b Hin Hs; [destruct Hin|].
  destruct Hin as [<- | Hin]; simpl.
  - rewrite Hs. split; apply fold_bounds_within_old.
    + apply expand_within_old, expand_within_new.
    + apply expand_within_new.
  - apply IH; assumption.
Qed.

End BoundsMore.

(** X10: the bounds contain both ends of every depositing segment, for any
    order for which [min] is below and [max] above both arguments. *)
Theorem X10_bounds_contain_depositing {R : Type} `{F32Extrema R} (le : R -> R -> bool)
  (Hmin_l : forall a b, le (f_min a b) a = true) (Hmin_r : forall a b, le (f_min a b) b = true)
  (Hmax_l : forall a b, le a (f_max a b) = true) (Hmax_r : forall a b, le b (f_max a b) = true)
  (Htrans : forall a b c, le a b = true -> le b c = true -> le a c = true)
  (segs : list (LineSegment R)) (s : LineSegment R) (Hin : In s segs) (Hs : is_extrusion s = true) :
  within le (compute_bounds segs) (start s) /\ within le (compute_bounds segs) (end_ s).
Proof.
  exact (fold_bounds_within_depositing le Hmin_l Hmin_r Hmax_l Hmax_r Htrans segs bounds_new s Hin Hs).
Qed.

Lemma zext_le_trans (a b c : ZExt) : zext_le a b = true -> zext_le b c = true -> zext_le a c = true.
Proof.
  destruct a, b, c; simpl; try reflexivity; try discriminate.
  rewrite !Z.leb_le. lia.
Qed.

Lemma zext_le_total (a b : ZExt) : zext_le a b = false -> zext_le b a = true.
Proof.
  destruct a, b; simpl; try reflexivity; try discriminate.
  rewrite Z.leb_gt, Z.leb_le. lia.
Qed.

Lemma zext_le_refl (a : ZExt) : zext_le a a = true.
Proof. destruct a; simpl; [reflexivity | apply Z.leb_refl | reflexivity]. Qed.

Lemma zext_min_l (a b : ZExt) : zext_le (zext_min a b) a = true.
Proof.
  unfold zext_min. destruct (zext_le a b) eqn:E; [apply zext_le_refl | apply zext_le_total, E].
Qed.

Lemma zext_min_r (a b : ZExt) : zext_le (zext_min a b) b = true.
Proof. unfold zext_min. destruct (zext_le a b) eqn:E; [exact E | apply zext_le_refl]. Qed.

Lemma zext_max_l (a b : ZExt) : zext_le a (zext_max a b) = true.
Proof. unfold zext_max. destruct (zext_le a b) eqn:E; [exact E | apply zext_le_refl]. Qed.

Lemma zext_max_r (a b : ZExt) : zext_le b (zext_max a b) = true.
Proof.
  unfold zext_max. destruct (zext_le a b) eqn:E; [apply zext_le_refl | apply zext_le_total, E].
Qed.

Definition zext_segments : list (LineSegment ZExt) :=
  [mkSeg (mkVec3D (Fin 0) (Fin 0) (Fin 0)) (mkVec3D (Fin 50) (Fin 50) (Fin 0)) false (Fin 0);
   mkSeg (mkVec3D (Fin 50) (Fin 50) (Fin 0)) (mkVec3D (Fin 60) (Fin 40) (Fin 1)) true (Fin 1)].

Lemma X10_witness :
  In (mkSeg (mkVec3D (Fin 50) (Fin 50) (Fin 0)) (mkVec3D (Fin 60) (Fin 40) (Fin 1)) true (Fin 1))
     zext_segments /\
  within zext_le (compute_bounds zext_segments) (mkVec3D (Fin 50) (Fin 50) (Fin 0)) /\
  within zext_le (compute_bounds zext_segments) (mkVec3D (Fin 60) (Fin 40) (Fin 1)).
Proof.
  assert (Hin : In (mkSeg (mkVec3D (Fin 50) (Fin 50) (Fin 0)) (mkVec3D (Fin 60) (Fin 40) (Fin 1))
                      true (Fin 1)) zext_segments) by (simpl; auto).
  split; [exact Hin|].
  exact (X10_bounds_contain_depositing zext_le zext_min_l zext_min_r zext_max_l zext_max_r
           zext_le_trans zext_segments _ Hin eq_refl).
Defined.

(** ** [main] *)


(** X11: [main] never panics between the parse and the bounds, and it fails
    with "No valid G-code movements found in file" exactly when the parse
    gives no segment: trimming never empties a non-empty list. *)
Theorem X11_main_error_iff_no_segments {R : Type} `{F32 R} `{F32Extrema R} (content : string) :
  main_pipeline (R:=R) content <> None /\
  (main_pipeline (R:=R) content = Some (inl "No valid G-code movements found in file"%string) <->
   parse_gcode (R:=R) content = []).
Proof.
  unfold main_pipeline.
  destruct (parse_gcode content) as [|s segs] eqn:Hp.
  - simpl. split; [discriminate|]. tauto.
  - destruct (filter_priming_lines_nonempty (s :: segs)) as (t & Ht & Htne); [discriminate|].
    rewrite Ht. destruct t as [|s' t']; [congruence|].
    split; [discriminate|]. split; discriminate.
Qed.

Definition travel_segments : list (LineSegment Z) :=
  [mkSeg (mkVec3D 0 0 0) (mkVec3D 10 0 0) false 0;
   mkSeg (mkVec3D 10 0 0) (mkVec3D 10 10 0) false 0]%Z.

Lemma X2_witness :
  print_segments <> [] /\ exists t, filter_priming_lines print_segments = Some t /\ t <> [].
Proof.
  assert (Hne : print_segments <> []) by discriminate.
  split; [exact Hne|]. exact (X2_trim_nonempty print_segments Hne).
Defined.

Lemma X3_witness :
  (forall s, In s travel_segments -> is_extrusion s = false) /\
  filter_priming_lines travel_segments = Some travel_segments.
Proof.
  assert (Hnone : forall s, In s travel_segments -> is_extrusion s = false)
    by (intros s [<- | [<- | []]]; reflexivity).
  split; [exact Hnone|]. exact (X3_trim_keeps_travel_only travel_segments Hnone).
Defined.

Lemma X4_witness :
  In (mkSeg (mkVec3D 0 0 0) (mkVec3D 10 0 0) true 0)%Z two_segments /\
  exists t s', filter_priming_lines two_segments = Some t /\
               nth_error t (length t - 1) = Some s' /\ is_extrusion s' = true.
Proof.
  assert (Hin : In (mkSeg (mkVec3D 0 0 0) (mkVec3D 10 0 0) true 0)%Z two_segments)
    by (simpl; auto).
  split; [exact Hin|]. exact (X4_trim_ends_depositing two_segments _ Hin eq_refl).
Defined.

(** ** Facts about the viewer loop *)

Section ViewerFacts.
Local Open Scope Q_scope.
Variables (max_z yaw0 pitch0 : Q).

Lemma clamp_range (v lo hi : Q) : lo <= hi -> lo <= clamp v lo hi <= hi.
Proof.
  intros Hlh. unfold clamp.
  destruct (Qle_bool lo v) eqn:E1; simpl.
  - apply Qle_bool_iff in E1.
    destruct (Qle_bool v hi) eqn:E2; simpl.
    + apply Qle_bool_iff in E2. split; assumption.
    + split; [exact Hlh | apply Qle_refl].
  - destruct (Qle_bool lo hi) eqn:E2; simpl.
    + split; [apply Qle_refl | exact Hlh].
    + split; [exact Hlh | apply Qle_refl].
Qed.

Hypothesis Hpitch0 : -(3#2) <= pitch0 <= 3#2.
Hypothesis Hmax_z : 0 <= max_z.

Lemma frame_keeps_ranges (v v' : Viewer) (i : FrameInput) :
  1#2 <= distance (camera v) /\ -(3#2) <= pitch (camera v) <= 3#2 /\
  0 <= layer_filter_z v <= max_z ->
  frame max_z yaw0 pitch0 v i = Some v' ->
  1#2 <= distance (camera v') /\ -(3#2) <= pitch (camera v') <= 3#2 /\
  0 <= layer_filter_z v' <= max_z.
Proof.
  intros (Hd & Hp & Hl) Hf. unfold frame in Hf.
  destruct (pressed_escape i); [discriminate|].
  set (cam := if pressed_r i then _ else _) in Hf.
  assert (Hcam : 1#2 <= distance cam /\ -(3#2) <= pitch cam <= 3#2).
  { unfold cam. destruct (pressed_r i); simpl.
    - split; [unfold initial_distance; lra | exact Hpitch0].
    - split; [exact Hd | exact Hp]. }
  set (en := if pressed_l i then _ else _) in Hf.
  set (lz := if en then _ else _) in Hf.
  assert (Hlz : 0 <= lz <= max_z).
  { unfold lz. destruct en; [|exact Hl].
    destruct (pressed_up i), (pressed_down i); simpl.
    - split; [apply Q.le_max_r|].
      apply Q.max_lub; [|exact Hmax_z].
      pose proof (Q.le_min_r (layer_filter_z v + (1#2)) max_z). lra.
    - split; [apply Q.min_glb; lra | apply Q.le_min_r].
    - split; [apply Q.le_max_r | apply Q.max_lub; lra].
    - exact Hl. }
  clearbody cam lz.
  destruct (mouse_left_down i).
  - destruct (mouse_position i) as [mx my].
    destruct (last_mouse_pos v) as [[last_x last_y]|];
      destruct (negb (Qeq_bool (wheel_y i) 0)); injection Hf as <-; simpl;
      (split; [try apply Q.le_max_r; tauto |]);
      (split; [try (apply clamp_range; lra); tauto | exact Hlz]).
  - destruct (negb (Qeq_bool (wheel_y i) 0)); injection Hf as <-; simpl;
      (split; [try apply Q.le_max_r; tauto |]);
      (split; [tauto | exact Hlz]).
Qed.

Lemma run_frames_keeps_ranges (v : Viewer) (inputs : list FrameInput) :
  1#2 <= distance (camera v) /\ -(3#2) <= pitch (camera v) <= 3#2 /\
  0 <= layer_filter_z v <= max_z ->
  let v' := run_frames max_z yaw0 pitch0 v inputs in
  1#2 <= distance (camera v') /\ -(3#2) <= pitch (camera v') <= 3#2 /\
  0 <= layer_filter_z v' <= max_z.
Proof.
  revert v; induction inputs as [|i rest IH]; intros v Hv; simpl; [exact Hv|].
  destruct (frame max_z yaw0 pitch0 v i) as [v'|] eqn:Ef; [|exact Hv].
  apply IH. exact (frame_keeps_ranges v v' i Hv Ef).
Qed.

End ViewerFacts.

(** X12: whatever the keys, mouse drags and wheel turns, the viewer keeps a
    zoom distance of at least 0.5, a pitch within [-1.5, 1.5] and a layer
    filter height within [0, max_z], provided the initial pitch is in range
    and [max_z] is not negative. *)
Theorem X12_viewer_ranges (max_z yaw0 pitch0 : Q)
  (Hpitch0 : (-(3#2) <= pitch0 <= 3#2)%Q) (Hmax_z : (0 <= max_z)%Q) (inputs : list FrameInput) :
  let v := run_frames max_z yaw0 pitch0 (viewer_init max_z yaw0 pitch0) inputs in
  (1#2 <= distance (camera v) /\ -(3#2) <= pitch (camera v) <= 3#2 /\
   0 <= layer_filter_z v <= max_z)%Q.
Proof.
  apply run_frames_keeps_ranges; try assumption.
  simpl. unfold initial_distance.
  split; [lra|]. split; [exact Hpitch0|]. split; [exact Hmax_z | apply Qle_refl].
Qed.

(** X13: while the layer filter is off, a frame leaves the filter height
    unchanged: Up and Down are ignored. *)
Theorem X13_layer_z_frozen_when_disabled (max_z yaw0 pitch0 : Q) (v v' : Viewer) (i : FrameInput)
  (Hf : frame max_z yaw0 pitch0 v i = Some v')
  (Hoff : layer_filter_enabled v' = false) :
  layer_filter_z v' = layer_filter_z v.
Proof.
  unfold frame in Hf.
  destruct (pressed_escape i); [discriminate|].
  set (en := if pressed_l i then _ else _) in Hf.
  set (cam := if pressed_r i then _ else _) in Hf.
  clearbody cam.
  destruct (mouse_left_down i).
  - destruct (mouse_position i) as [mx my].
    destruct (last_mouse_pos v) as [[last_x last_y]|];
      destruct (negb (Qeq_bool (wheel_y i) 0)); injection Hf as <-; simpl in *;
      rewrite Hoff; reflexivity.
  - destruct (negb (Qeq_bool (wheel_y i) 0)); injection Hf as <-; simpl in *;
      rewrite Hoff; reflexivity.
Qed.

Definition frame_up_drag : FrameInput :=
  mkFrameInput false false false false false true false true (30, 40)%Q 0%Q.

Definition frames_sample : list FrameInput :=
  [mkFrameInput false false true false false true false true (10, 10)%Q 0%Q;
   mkFrameInput false false false false false false true true (30, 400)%Q 2%Q;
   mkFrameInput false true false true true true true false (0, 0)%Q (-50)%Q].

Lemma X12_witness :
  (-(3#2) <= 5236#10000 <= 3#2)%Q /\ (0 <= 10)%Q /\
  let v := run_frames 10 (7854#10000) (5236#10000)
             (viewer_init 10 (7854#10000) (5236#10000)) frames_sample in
  (1#2 <= distance (camera v) /\ -(3#2) <= pitch (camera v) <= 3#2 /\
   0 <= layer_filter_z v <= 10)%Q.
Proof.
  assert (Hp : (-(3#2) <= 5236#10000 <= 3#2)%Q)
    by (split; apply Qle_bool_iff; reflexivity).
  assert (Hz : (0 <= 10)%Q) by (apply Qle_bool_iff; reflexivity).
  split; [exact Hp|]. split; [exact Hz|].
  exact (X12_viewer_ranges 10 (7854#10000) (5236#10000) Hp Hz frames_sample).
Defined.

Definition viewer_sample : Viewer := viewer_init 10 (7854#10000) (5236#10000).

Lemma X13_witness :
  exists v', frame 10 (7854#10000) (5236#10000) viewer_sample frame_up_drag = Some v' /\
             layer_filter_enabled v' = false /\
             layer_filter_z v' = layer_filter_z viewer_sample.
Proof.
  eexists. split; [reflexivity|].
  split; [reflexivity|].
  exact (X13_layer_z_frozen_when_disabled 10 (7854#10000) (5236#10000) viewer_sample _
           frame_up_drag eq_refl eq_refl).
Defined.
